(** * lesca: cookie collection and driver bootstrap of [main.py]

    A shallow embedding of [main.py] and the properties of its two
    functions, [get_cookies] and [setup_driver].

    - The process environment ([os.environ]) is a finite map from variable
      names to values; [os.environ.get] is map lookup.
    - The module globals ([OUTPUT_DIR], [COOKIE_KEYS], [DOMAINS]) are
      mutable Python objects, so they live in the process state next to
      the environment, and the two functions are written in a state and
      exception monad over that state.
    - The browser-automation package is an external collaborator: it is
      an interface ([Browser]) whose three operations may change the
      browser's own state and may raise.  Every call made on it is
      recorded, in order, so that the sequence of effects of
      [setup_driver] can be stated.  The [import] lines only bind the
      names of that package; finding the package is not modelled. *)

From Stdlib Require Import String Ascii.
From stdpp Require Import gmap strings list fin_maps sorting.

(** ** Python values the script manipulates *)

(** The cookie dict [{'name': .., 'value': .., 'domain': ..}] of line 28. *)
Record cookie := Cookie {
  name : string;
  value : string;
  domain : string;
}.

#[global] Instance cookie_eq_dec : EqDecision cookie.
Proof. solve_decision. Defined.

(** Exceptions that can leave the two functions: the [KeyError] of a dict
    subscript, and whatever the browser package raises. *)
Inductive exn :=
  | KeyError (key : string)
  | WebDriverException (msg : string).

Inductive result (A : Type) :=
  | Ok (a : A)
  | Raise (e : exn).
Arguments Ok {A} a.
Arguments Raise {A} e.

(** ** A state and exception monad

    A computation takes the state, and gives the state it leaves behind
    together with a value or the raised exception. *)
Definition M (S A : Type) : Type := S → S * result A.

Definition ret {S A} (a : A) : M S A := λ s, (s, Ok a).

Definition bind {S A B} (m : M S A) (k : A → M S B) : M S B :=
  λ s, match m s with
       | (s', Ok a) => k a s'
       | (s', Raise e) => (s', Raise e)
       end.

Declare Scope py_scope.
Delimit Scope py_scope with py.
Notation "x ⇐ m ;; k" := (bind m (λ x, k))
  (at level 100, m at next level, right associativity) : py_scope.
Notation "m ;;; k" := (bind m (λ _, k))
  (at level 100, right associativity) : py_scope.
Local Open Scope py_scope.

(** [for x in l: acc = body x acc], the accumulator being the local the
    loop body updates. *)
Fixpoint for_each {S A B} (l : list A) (body : A → B → M S B) (acc : B) : M S B :=
  match l with
  | [] => ret acc
  | x :: rest => acc' ⇐ body x acc ;; for_each rest body acc'
  end.

(** ** Strings *)

(** [str.lower] on the ASCII range: the letters [A]-[Z] (codes 65-90) move
    to [a]-[z], every other character stays. *)
Definition lower_ascii (c : ascii) : ascii :=
  let n := nat_of_ascii c in
  if (65 <=? n)%nat && (n <=? 90)%nat then ascii_of_nat (n + 32) else c.

Fixpoint lower (s : string) : string :=
  match s with
  | EmptyString => EmptyString
  | String c rest => String (lower_ascii c) (lower rest)
  end.

(** Truth value of [val] in [if val:], where [val] is [None] or a [str]. *)
Definition truthy (val : option string) : bool :=
  match val with
  | None => false
  | Some "" => false
  | Some _ => true
  end.

(** A dict built by assignments made one after another (a dict display, or
    a series of [d[k] = v]): a later assignment to the same key wins. *)
Definition assign_all (kvs : list (string * string)) (d : gmap string string)
    : gmap string string :=
  foldl (λ acc kv, <[kv.1 := kv.2]> acc) d kvs.

(** ** Module globals (lines 7-21) *)

Definition COMPANY_URL : string :=
  "https://leetcode.com/company/capital-one/?favoriteSlug=capital-one-six-months".

Definition COOKIE_KEYS : list string :=
  ["CF_CLEARANCE"; "CSRF_TOKEN"; "INGRESSCOOKIE"; "IP_CHECK"; "LEETCODE_SESSION"; "MESSAGES"].

Definition DOMAINS : gmap string string :=
  assign_all
    [("CF_CLEARANCE", ".leetcode.com");
     ("CSRF_TOKEN", "leetcode.com");
     ("INGRESSCOOKIE", "leetcode.com");
     ("IP_CHECK", "leetcode.com");
     ("LEETCODE_SESSION", ".leetcode.com");
     ("MESSAGES", ".leetcode.com")] ∅.

(** [os.environ.get('OUTPUT_DIR', 'leetcode-capitalone')] *)
Definition OUTPUT_DIR (env : gmap string string) : string :=
  default "leetcode-capitalone" (env !! "OUTPUT_DIR").

(** The state of the Python process that the script can read or write:
    the environment and the objects bound to the module's global names. *)
Record process := Process {
  environ : gmap string string;
  g_OUTPUT_DIR : string;
  g_COOKIE_KEYS : list string;
  g_DOMAINS : gmap string string;
}.

(** Executing the module body in environment [env] (the [import] lines
    bind the browser package, which is the [Browser] interface below). *)
Definition load_module (env : gmap string string) : process :=
  {| environ := env;
     g_OUTPUT_DIR := OUTPUT_DIR env;
     g_COOKIE_KEYS := COOKIE_KEYS;
     g_DOMAINS := DOMAINS |}.

(** ** [get_cookies] (lines 23-30) *)

(** [os.environ.get(key)] *)
Definition environ_get (key : string) : M process (option string) :=
  λ p, (p, Ok (environ p !! key)).

(** [DOMAINS[key]] *)
Definition DOMAINS_getitem (key : string) : M process string :=
  λ p, (p, match g_DOMAINS p !! key with
           | Some d => Ok d
           | None => Raise (KeyError key)
           end).

(** The list the name [COOKIE_KEYS] is bound to when the loop starts. *)
Definition read_COOKIE_KEYS : M process (list string) :=
  λ p, (p, Ok (g_COOKIE_KEYS p)).

(** One iteration of the loop of lines 25-28. *)
Definition get_cookies_body (key : string) (cookies : list cookie)
    : M process (list cookie) :=
  val ⇐ environ_get key ;;
  match val with
  | Some v =>
      if truthy val then
        d ⇐ DOMAINS_getitem key ;;
        ret (cookies ++ [{| name := lower key; value := v; domain := d |}])
      else ret cookies
  | None => ret cookies
  end.

Definition get_cookies : M process (list cookie) :=
  keys ⇐ read_COOKIE_KEYS ;;
  for_each keys get_cookies_body [].

(** ** The browser package *)

(** [webdriver.ChromeOptions()] holds the list of command-line arguments;
    [add_argument] appends to it. *)
Record ChromeOptions := Options { arguments : list string }.

Definition new_ChromeOptions : ChromeOptions := {| arguments := [] |}.

Definition add_argument (arg : string) (options : ChromeOptions) : ChromeOptions :=
  {| arguments := arguments options ++ [arg] |}.

(** What the script asks of the browser package: start a Chrome session
    with options, navigate a session to a URL, add a cookie to a session.
    [world] is the state of everything outside the Python process (the
    browser, the network); each operation may change it and may raise. *)
Class Browser (world driver : Type) := {
  webdriver_Chrome : ChromeOptions → world → world * result driver;
  driver_get : driver → string → world → world * result unit;
  driver_add_cookie : driver → cookie → world → world * result unit;
}.

(** The calls made on the browser package, as they are issued:
    [webdriver.Chrome(options=..)], [drv.get(url)], [drv.add_cookie(c)]. *)
Inductive call (driver : Type) :=
  | CallChrome (options : ChromeOptions)
  | CallGet (drv : driver) (url : string)
  | CallAddCookie (drv : driver) (c : cookie).
Arguments CallChrome {driver} options.
Arguments CallGet {driver} drv url.
Arguments CallAddCookie {driver} drv c.

(** Chrome runs without a window when given a [--headless] switch, and
    runs its renderers in the sandbox unless given [--no-sandbox]. *)
Definition headless (options : ChromeOptions) : bool :=
  bool_decide ("--headless=new" ∈ arguments options)
  || bool_decide ("--headless" ∈ arguments options).

Definition sandboxed (options : ChromeOptions) : bool :=
  negb (bool_decide ("--no-sandbox" ∈ arguments options)).

Definition shm_disabled (options : ChromeOptions) : bool :=
  bool_decide ("--disable-dev-shm-usage" ∈ arguments options).

Section driver.
Context {world driver : Type} `{!Browser world driver}.

(** The Python process, the outside world, and the log of calls. *)
Record machine := Machine {
  proc : process;
  outside : world;
  calls : list (call driver);
}.

(** Run a computation of the Python process inside the machine. *)
Definition in_process {A} (m : M process A) : M machine A :=
  λ s, let '(p, r) := m (proc s) in
       ({| proc := p; outside := outside s; calls := calls s |}, r).

(** Issue call [c]: log it, then let the browser act on the world. *)
Definition external {A} (c : call driver) (op : world → world * result A) : M machine A :=
  λ s, let '(w, r) := op (outside s) in
       ({| proc := proc s; outside := w; calls := calls s ++ [c] |}, r).

Definition LANDING_URL : string := "https://leetcode.com/".

(** [setup_driver] (lines 32-44) *)
Definition setup_driver : M machine driver :=
  let options := new_ChromeOptions in
  let options := add_argument "--headless=new" options in
  let options := add_argument "--no-sandbox" options in
  let options := add_argument "--disable-dev-shm-usage" options in
  drv ⇐ external (CallChrome options) (webdriver_Chrome options) ;;
  external (CallGet drv LANDING_URL) (driver_get drv LANDING_URL) ;;;
  cookies ⇐ in_process get_cookies ;;
  for_each cookies
    (λ cookie _, external (CallAddCookie drv cookie) (driver_add_cookie drv cookie)) tt ;;;
  ret drv.
End driver.

Arguments machine : clear implicits.
Arguments Machine {world driver} _ _ _.

(** The machine right after the module was loaded in environment [env]. *)
Definition boot {world driver} (env : gmap string string) (w : world)
    : machine world driver :=
  {| proc := load_module env; outside := w; calls := [] |}.

(** What the browser answers when the cookies are offered to session
    [drv] one after the other, starting in world [w], each offer made in
    the world the previous one left: the position and the exception of
    the first [add_cookie] that raises, if any does. *)
Fixpoint first_refusal {world driver} `{!Browser world driver}
    (drv : driver) (cookies : list cookie) (w : world) : option (nat * exn) :=
  match cookies with
  | [] => None
  | c :: rest =>
      match (driver_add_cookie drv c w).2 with
      | Raise e => Some (0, e)
      | Ok _ =>
          match first_refusal drv rest (driver_add_cookie drv c w).1 with
          | Some (i, e) => Some (S i, e)
          | None => None
          end
      end
  end.

(** Two browsers to run the script against.  The world is the number of
    calls served so far, and a session is named by the number at which it
    was started.  [steady] never raises; [picky] refuses every cookie. *)
Definition steady : Browser nat nat := {|
  webdriver_Chrome _ n := (S n, Ok n);
  driver_get _ _ n := (S n, Ok tt);
  driver_add_cookie _ _ n := (S n, Ok tt);
|}.

Definition picky : Browser nat nat := {|
  webdriver_Chrome _ n := (S n, Ok n);
  driver_get _ _ n := (S n, Ok tt);
  driver_add_cookie _ _ n := (n, Raise (WebDriverException "invalid cookie domain"));
|}.

(** ** Shapes of an output sequence *)

(** The names of [cs] are in ascending order of their characters' codes,
    which is what sorting the records by name would give. *)
Fixpoint ascending (l : list string) : bool :=
  match l with
  | [] => true
  | a :: rest =>
      match rest with
      | [] => true
      | b :: _ => String.leb a b && ascending rest
      end
  end.

Definition alphabetical (cs : list cookie) : bool := ascending (name <$> cs).

(** [l] without its leading run of [a]. *)
Fixpoint skip_run (a : string) (l : list string) : list string :=
  match l with
  | [] => []
  | b :: rest => if decide (a = b) then skip_run a rest else l
  end.

(** Equal elements sit next to each other: once a run of [a] has ended,
    [a] does not come back. *)
Fixpoint grouped (l : list string) : bool :=
  match l with
  | [] => true
  | a :: rest => bool_decide (a ∉ skip_run a rest) && grouped rest
  end.

Definition domain_grouped (cs : list cookie) : bool := grouped (domain <$> cs).

(** The order on strings behind [ascending], as a relation. *)
Definition string_le (a b : string) : Prop := String.leb a b = true.

(** ** Closed form of the loop of [get_cookies]

    What one key contributes, given the environment and the domain table;
    [get_cookies_loaded] below proves that the loop computes exactly the
    contributions of the keys, in order. *)
Definition cookie_for (env doms : gmap string string) (key : string) : option cookie :=
  match env !! key with
  | Some v =>
      if truthy (Some v) then Cookie (lower key) v <$> doms !! key else None
  | None => None
  end.

(** The process with another string bound to [OUTPUT_DIR]. *)
Definition with_OUTPUT_DIR (d : string) (p : process) : process :=
  {| environ := environ p;
     g_OUTPUT_DIR := d;
     g_COOKIE_KEYS := g_COOKIE_KEYS p;
     g_DOMAINS := g_DOMAINS p |}.

Definition machine_with_OUTPUT_DIR {world driver} (d : string)
    (s : machine world driver) : machine world driver :=
  {| proc := with_OUTPUT_DIR d (proc s); outside := outside s; calls := calls s |}.

(** A computation neither reads nor writes [OUTPUT_DIR]: run with
    another string bound to it, it does the same, gives the same, and
    leaves that string bound. *)
Definition ignores_OUTPUT_DIR {world driver A} (m : M (machine world driver) A)
    : Prop :=
  ∀ d s, m (machine_with_OUTPUT_DIR d s)
         = (machine_with_OUTPUT_DIR d (m s).1, (m s).2).

(** ** Sample environments and records *)

Definition env_session_csrf : gmap string string :=
  assign_all [("LEETCODE_SESSION", "abc123"); ("CSRF_TOKEN", "xyz")] ∅.

Definition env_all_six : gmap string string :=
  assign_all
    [("MESSAGES", "m"); ("IP_CHECK", "i"); ("CF_CLEARANCE", "c");
     ("LEETCODE_SESSION", "s"); ("INGRESSCOOKIE", "g"); ("CSRF_TOKEN", "t")] ∅.

Definition csrf_xyz : cookie :=
  {| name := "csrf_token"; value := "xyz"; domain := "leetcode.com" |}.

Definition session_abc123 : cookie :=
  {| name := "leetcode_session"; value := "abc123"; domain := ".leetcode.com" |}.

Definition script_options : ChromeOptions :=
  {| arguments := ["--headless=new"; "--no-sandbox"; "--disable-dev-shm-usage"] |}.

(** The recognized keys that are set to a non-empty value, in table
    order, and the record [get_cookies] makes of such a key. *)
Definition set_keys (env : gmap string string) : list string :=
  filter (λ k, truthy (env !! k)) COOKIE_KEYS.

Definition record_of (env : gmap string string) (k : string) : cookie :=
  {| name := lower k;
     value := default "" (env !! k);
     domain := default "" (DOMAINS !! k) |}.

(** * Properties *)

(** ** The loop, in general *)

Lemma for_each_frame {S A B} (body : A → B → M S B) :
  (∀ x acc s, (body x acc s).1 = s) →
  ∀ l acc s, (for_each l body acc s).1 = s.
Proof.
  intros Hbody l. induction l as [|x l IH]; intros acc s; simpl; [done|].
  unfold bind. specialize (Hbody x acc s).
  destruct (body x acc s) as [s' [a|e]]; simpl in *; subst; [apply IH | done].
Qed.

Lemma truthy_spec (val : option string) :
  truthy val = true ↔ ∃ v, val = Some v ∧ v ≠ "".
Proof.
  split.
  - destruct val as [[|c v]|]; simpl; try discriminate. intros _. by eexists.
  - intros (v & -> & Hv). by destruct v.
Qed.

Lemma truthy_false (val : option string) :
  truthy val = false ↔ val = None ∨ val = Some "".
Proof.
  split.
  - destruct val as [[|c v]|]; simpl; try discriminate; auto.
  - by intros [-> | ->].
Qed.

(** ** The loop of [get_cookies] *)

Lemma get_cookies_body_frame key acc p : (get_cookies_body key acc p).1 = p.
Proof.
  unfold get_cookies_body, bind, environ_get, DOMAINS_getitem, ret.
  destruct (environ p !! key) as [[|c v]|]; simpl; try done.
  by destruct (g_DOMAINS p !! key).
Qed.

Lemma get_cookies_frame p : (get_cookies p).1 = p.
Proof.
  unfold get_cookies, bind, read_COOKIE_KEYS.
  apply for_each_frame. intros. apply get_cookies_body_frame.
Qed.

Lemma get_cookies_body_eval key acc p :
  is_Some (g_DOMAINS p !! key) →
  get_cookies_body key acc p
  = (p, Ok (acc ++ option_list (cookie_for (environ p) (g_DOMAINS p) key))).
Proof.
  intros [d Hd].
  unfold get_cookies_body, cookie_for, bind, environ_get, DOMAINS_getitem, ret.
  destruct (environ p !! key) as [[|c v]|]; simpl; by rewrite ?Hd, ?app_nil_r.
Qed.

Lemma loop_closed_form p keys acc :
  (∀ k, k ∈ keys → is_Some (g_DOMAINS p !! k)) →
  for_each keys get_cookies_body acc p
  = (p, Ok (acc ++ omap (cookie_for (environ p) (g_DOMAINS p)) keys)).
Proof.
  revert acc. induction keys as [|key keys IH]; intros acc Hdom; simpl.
  - by rewrite app_nil_r.
  - unfold bind. rewrite get_cookies_body_eval by (apply Hdom; left).
    rewrite IH by (intros k Hk; apply Hdom; by right).
    destruct (cookie_for (environ p) (g_DOMAINS p) key); simpl;
      by rewrite <- ?app_assoc, ?app_nil_r.
Qed.

(** Case analysis on a member of a list given by its elements. *)
Ltac each_member H :=
  repeat (apply elem_of_cons in H as [-> | H]); [.. | by apply elem_of_nil in H].

Lemma DOMAINS_total k : k ∈ COOKIE_KEYS → is_Some (DOMAINS !! k).
Proof.
  intros H. unfold COOKIE_KEYS in H.
  each_member H; eexists; vm_compute; reflexivity.
Qed.

Lemma get_cookies_loaded env :
  get_cookies (load_module env)
  = (load_module env, Ok (omap (cookie_for env DOMAINS) COOKIE_KEYS)).
Proof.
  unfold get_cookies, bind, read_COOKIE_KEYS. cbv beta iota.
  by rewrite loop_closed_form by apply DOMAINS_total.
Qed.

Lemma omap_cookie_for env (keys : list string) :
  (∀ k, k ∈ keys → is_Some (DOMAINS !! k)) →
  omap (cookie_for env DOMAINS) keys
  = record_of env <$> filter (λ k, truthy (env !! k)) keys.
Proof.
  induction keys as [|key keys IH]; intros Hdom; [done|].
  rewrite filter_cons.
  change (omap (cookie_for env DOMAINS) (key :: keys))
    with (match cookie_for env DOMAINS key with
          | Some c => c :: omap (cookie_for env DOMAINS) keys
          | None => omap (cookie_for env DOMAINS) keys
          end).
  rewrite IH by (intros k Hk; apply Hdom; by right).
  destruct (Hdom key) as [d Hd]; [by left|].
  unfold cookie_for. rewrite Hd.
  destruct (env !! key) as [[|c v]|] eqn:Hv; simpl.
  - done.
  - unfold record_of at 2. by rewrite Hv, Hd.
  - done.
Qed.

Lemma get_cookies_set_keys env :
  get_cookies (load_module env)
  = (load_module env, Ok (record_of env <$> set_keys env)).
Proof.
  rewrite get_cookies_loaded.
  by rewrite omap_cookie_for by apply DOMAINS_total.
Qed.

(** ** The keys that contribute *)

Lemma NoDup_COOKIE_KEYS : NoDup COOKIE_KEYS.
Proof. compute_done. Qed.

Lemma NoDup_lower_COOKIE_KEYS : NoDup (lower <$> COOKIE_KEYS).
Proof. compute_done. Qed.

Lemma elem_of_set_keys env k :
  k ∈ set_keys env ↔ k ∈ COOKIE_KEYS ∧ ∃ v, env !! k = Some v ∧ v ≠ "".
Proof.
  unfold set_keys. rewrite list_elem_of_filter, Is_true_true, truthy_spec.
  tauto.
Qed.

Lemma set_keys_sublist env : set_keys env `sublist_of` COOKIE_KEYS.
Proof. apply sublist_filter. Qed.

Lemma NoDup_set_keys env : NoDup (set_keys env).
Proof. eapply sublist_NoDup; [apply NoDup_COOKIE_KEYS | apply set_keys_sublist]. Qed.

Lemma names_of_records env (ks : list string) :
  name <$> (record_of env <$> ks) = lower <$> ks.
Proof. rewrite <- list_fmap_compose. by apply list_fmap_ext. Qed.

Lemma record_of_set_key env k :
  k ∈ set_keys env →
  env !! k = Some (value (record_of env k))
  ∧ DOMAINS !! k = Some (domain (record_of env k)).
Proof.
  intros Hk. apply elem_of_set_keys in Hk as (Hk & v & Hv & _).
  destruct (DOMAINS_total k Hk) as [d Hd].
  unfold record_of; simpl. by rewrite Hv, Hd.
Qed.

(** [lower] does not identify two keys of the table. *)
Lemma lower_inj_on_keys k1 k2 :
  k1 ∈ COOKIE_KEYS → k2 ∈ COOKIE_KEYS → lower k1 = lower k2 → k1 = k2.
Proof.
  intros H1 H2. unfold COOKIE_KEYS in H1, H2.
  each_member H1; each_member H2; by vm_compute.
Qed.

(** ** Claims about [get_cookies] *)

(** C9. Every element of [COOKIE_KEYS] is a key of [DOMAINS], so the
    subscript [DOMAINS[key]] never raises: in every environment
    [get_cookies] returns a list, and leaves the process as it found it. *)
Theorem DOMAINS_lookup_never_fails :
  (∀ k, k ∈ COOKIE_KEYS → is_Some (DOMAINS !! k))
  ∧ (∀ env k, k ∈ COOKIE_KEYS →
       ∃ d, DOMAINS_getitem k (load_module env) = (load_module env, Ok d))
  ∧ (∀ env, ∃ cs, get_cookies (load_module env) = (load_module env, Ok cs)).
Proof.
  split; [exact DOMAINS_total|]. split.
  - intros env k Hk. destruct (DOMAINS_total k Hk) as [d Hd].
    exists d. unfold DOMAINS_getitem. simpl. by rewrite Hd.
  - intros env. eexists. apply get_cookies_loaded.
Qed.

(** The [KeyError] branch is real: with a table that lacks a key of the
    list, a set variable makes the subscript raise. *)
Example DOMAINS_lookup_can_fail :
  (get_cookies {| environ := env_session_csrf;
                  g_OUTPUT_DIR := "out";
                  g_COOKIE_KEYS := COOKIE_KEYS;
                  g_DOMAINS := delete "LEETCODE_SESSION" DOMAINS |}).2
  = Raise (KeyError "LEETCODE_SESSION").
Proof. vm_compute. reflexivity. Qed.

(** C10. The output has at most six records and their [name] fields are
    pairwise distinct: the names are the lowercased forms of distinct
    keys of the table. *)
Theorem get_cookies_names_distinct (env : gmap string string) :
  ∃ cs ks,
    (get_cookies (load_module env)).2 = Ok cs
    ∧ length cs ≤ 6
    ∧ NoDup (name <$> cs)
    ∧ name <$> cs = lower <$> ks
    ∧ NoDup ks
    ∧ (∀ k, k ∈ ks → k ∈ COOKIE_KEYS).
Proof.
  exists (record_of env <$> set_keys env), (set_keys env).
  rewrite get_cookies_set_keys, names_of_records, length_fmap.
  split_and!; [done| | | done | apply NoDup_set_keys |].
  - apply (sublist_length _ COOKIE_KEYS), set_keys_sublist.
  - eapply sublist_NoDup; [apply NoDup_lower_COOKIE_KEYS|].
    apply fmap_sublist, set_keys_sublist.
  - intros k Hk. by apply elem_of_set_keys in Hk as [? _].
Qed.

(** C1. Let [S] be the set of recognized keys that the environment sets
    to a non-empty value.  Then [get_cookies] returns exactly [|S|]
    records; each record has the lowercased form of a key of [S] as its
    name, that key's environment value as its value and that key's entry
    of [DOMAINS] as its domain; and every key of [S] has its record. *)
Theorem get_cookies_one_record_per_set_key
    (env : gmap string string) (S : gset string) :
  (∀ k, k ∈ S ↔ k ∈ COOKIE_KEYS ∧ ∃ v, env !! k = Some v ∧ v ≠ "") →
  ∃ cs,
    (get_cookies (load_module env)).2 = Ok cs
    ∧ length cs = size S
    ∧ (∀ c, c ∈ cs →
         ∃ k, k ∈ S ∧ name c = lower k
              ∧ env !! k = Some (value c) ∧ DOMAINS !! k = Some (domain c))
    ∧ (∀ k, k ∈ S →
         ∃ c, c ∈ cs ∧ name c = lower k
              ∧ env !! k = Some (value c) ∧ DOMAINS !! k = Some (domain c)).
Proof.
  intros HS.
  assert (S = list_to_set (set_keys env)) as ->.
  { apply set_eq. intros k. by rewrite elem_of_list_to_set, HS, elem_of_set_keys. }
  exists (record_of env <$> set_keys env).
  rewrite get_cookies_set_keys, length_fmap, size_list_to_set by apply NoDup_set_keys.
  split_and!; [done | done | |].
  - intros c (k & -> & Hk)%list_elem_of_fmap. exists k.
    rewrite elem_of_list_to_set. split; [done|]. split; [done|].
    by apply record_of_set_key.
  - intros k Hk%elem_of_list_to_set. exists (record_of env k).
    split; [apply list_elem_of_fmap; eauto|]. split; [done|].
    by apply record_of_set_key.
Qed.

Lemma get_cookies_one_record_per_set_key_witness :
  ∃ cs,
    (get_cookies (load_module env_session_csrf)).2 = Ok cs
    ∧ length cs = size ({[ "CSRF_TOKEN"; "LEETCODE_SESSION" ]} : gset string)
    ∧ (∀ c, c ∈ cs →
         ∃ k, k ∈ ({[ "CSRF_TOKEN"; "LEETCODE_SESSION" ]} : gset string)
              ∧ name c = lower k
              ∧ env_session_csrf !! k = Some (value c)
              ∧ DOMAINS !! k = Some (domain c))
    ∧ (∀ k, k ∈ ({[ "CSRF_TOKEN"; "LEETCODE_SESSION" ]} : gset string) →
         ∃ c, c ∈ cs ∧ name c = lower k
              ∧ env_session_csrf !! k = Some (value c)
              ∧ DOMAINS !! k = Some (domain c)).
Proof.
  apply (get_cookies_one_record_per_set_key env_session_csrf
           {[ "CSRF_TOKEN"; "LEETCODE_SESSION" ]}).
  intros k. split.
  - intros [->%elem_of_singleton | ->%elem_of_singleton]%elem_of_union;
      (split; [compute_done | eexists; split; [vm_compute; reflexivity | discriminate]]).
  - intros [Hk (v & Hv & Hne)]. unfold COOKIE_KEYS in Hk.
    each_member Hk; try (vm_compute in Hv; discriminate); set_solver.
Defined.

(** ** Results do not depend on what the loop does not read *)

Lemma run_frame {S A} (m : M S A) s : (m s).1 = s → m s = (s, (m s).2).
Proof. destruct (m s) as [s' r]; simpl. by intros ->. Qed.

Lemma for_each_result_indep {S A B} (body : A → B → M S B) (s1 s2 : S) :
  (∀ x acc, (body x acc s1).1 = s1) →
  (∀ x acc, (body x acc s2).1 = s2) →
  (∀ x acc, (body x acc s1).2 = (body x acc s2).2) →
  ∀ l acc, (for_each l body acc s1).2 = (for_each l body acc s2).2.
Proof.
  intros H1 H2 Hr l. induction l as [|x l IH]; intros acc; simpl; [done|].
  unfold bind.
  rewrite (run_frame (body x acc) s1), (run_frame (body x acc) s2), Hr by done.
  by destruct (body x acc s2).2.
Qed.

Lemma get_cookies_reads (p q : process) :
  environ q = environ p →
  g_COOKIE_KEYS q = g_COOKIE_KEYS p →
  g_DOMAINS q = g_DOMAINS p →
  (get_cookies q).2 = (get_cookies p).2.
Proof.
  intros He Hk Hd. unfold get_cookies, bind, read_COOKIE_KEYS. rewrite Hk.
  apply for_each_result_indep; try (intros; apply get_cookies_body_frame).
  intros key acc.
  unfold get_cookies_body, bind, environ_get, DOMAINS_getitem, ret.
  rewrite He. destruct (environ p !! key) as [[|c v]|]; simpl; try done.
  rewrite Hd. by destruct (g_DOMAINS p !! key).
Qed.

Lemma omap_ext_in {A B} (f g : A → option B) (l : list A) :
  (∀ x, x ∈ l → f x = g x) → omap f l = omap g l.
Proof.
  induction l as [|x l IH]; intros Hfg; [done|].
  change (omap ?h (x :: l))
    with (match h x with Some y => y :: omap h l | None => omap h l end).
  rewrite (Hfg x) by left. by rewrite IH by (intros; apply Hfg; by right).
Qed.

(** Two environments that agree on the six keys give the same output. *)
Lemma get_cookies_agree (env1 env2 : gmap string string) :
  (∀ k, k ∈ COOKIE_KEYS → env1 !! k = env2 !! k) →
  (get_cookies (load_module env1)).2 = (get_cookies (load_module env2)).2.
Proof.
  intros Hagree. rewrite !get_cookies_loaded. cbn [snd]. f_equal.
  apply omap_ext_in. intros k Hk. unfold cookie_for. by rewrite Hagree.
Qed.

(** C7. [get_cookies] is a pure read: it leaves the process state (the
    environment, [COOKIE_KEYS], [DOMAINS], [OUTPUT_DIR]) exactly as it
    found it; its result is a function of the environment and the two
    tables alone; and a second invocation returns what the first did. *)
Theorem get_cookies_pure (p : process) :
  (get_cookies p).1 = p
  ∧ (∀ q, environ q = environ p →
          g_COOKIE_KEYS q = g_COOKIE_KEYS p →
          g_DOMAINS q = g_DOMAINS p →
          (get_cookies q).2 = (get_cookies p).2)
  ∧ (first ⇐ get_cookies ;; second ⇐ get_cookies ;; ret (first, second)) p
    = (p, match (get_cookies p).2 with
          | Ok cs => Ok (cs, cs)
          | Raise e => Raise e
          end).
Proof.
  split; [apply get_cookies_frame|]. split; [apply get_cookies_reads|].
  unfold bind. rewrite (run_frame get_cookies p) by apply get_cookies_frame.
  destruct (get_cookies p).2 as [cs|e] eqn:Hr; [|done].
  rewrite (run_frame get_cookies p) by apply get_cookies_frame. by rewrite Hr.
Qed.

Lemma get_cookies_same_contributions (env1 env2 : gmap string string) :
  (∀ k, k ∈ COOKIE_KEYS → cookie_for env1 DOMAINS k = cookie_for env2 DOMAINS k) →
  (get_cookies (load_module env1)).2 = (get_cookies (load_module env2)).2.
Proof.
  intros Hsame. rewrite !get_cookies_loaded. cbn [snd]. f_equal.
  by apply omap_ext_in.
Qed.

Lemma cookie_for_falsy env doms k :
  env !! k = None ∨ env !! k = Some "" → cookie_for env doms k = None.
Proof. unfold cookie_for. by intros [-> | ->]. Qed.

(** C3. A recognized key that is unset or set to the empty string gives
    no record and no error: the call returns a list, the same list as
    when the key is set to the empty string and as when it is removed
    from the environment, and no record of that list bears the key's
    name. *)
Theorem get_cookies_empty_as_absent (env : gmap string string) (k : string) :
  k ∈ COOKIE_KEYS →
  env !! k = None ∨ env !! k = Some "" →
  ∃ cs,
    get_cookies (load_module env) = (load_module env, Ok cs)
    ∧ (get_cookies (load_module (<[k := ""]> env))).2 = Ok cs
    ∧ (get_cookies (load_module (delete k env))).2 = Ok cs
    ∧ (∀ c, c ∈ cs → name c ≠ lower k).
Proof.
  intros Hk Hfalsy. exists (record_of env <$> set_keys env).
  assert (∀ env', (∀ k', k' ≠ k → env' !! k' = env !! k') →
                  env' !! k = None ∨ env' !! k = Some "" →
                  (get_cookies (load_module env')).2
                  = Ok (record_of env <$> set_keys env)) as Hsame.
  { intros env' Hother Hfalsy'.
    transitivity (get_cookies (load_module env)).2;
      [|by rewrite get_cookies_set_keys].
    apply get_cookies_same_contributions. intros k' _.
    destruct (decide (k' = k)) as [-> | Hne].
    - by rewrite !cookie_for_falsy.
    - unfold cookie_for. by rewrite Hother. }
  split_and!.
  - apply get_cookies_set_keys.
  - apply Hsame; [intros; by apply lookup_insert_ne | right; apply lookup_insert_eq].
  - apply Hsame; [intros; by apply lookup_delete_ne | left; apply lookup_delete_eq].
  - intros c (k' & -> & Hk')%list_elem_of_fmap Hname. simpl in Hname.
    apply elem_of_set_keys in Hk' as (Hk' & v & Hv & Hne).
    apply lower_inj_on_keys in Hname as ->; [|done..].
    destruct Hfalsy as [Hf | Hf]; rewrite Hf in Hv; congruence.
Qed.

Lemma get_cookies_empty_as_absent_witness :
  ∃ cs,
    get_cookies (load_module (<["IP_CHECK" := ""]> env_session_csrf))
    = (load_module (<["IP_CHECK" := ""]> env_session_csrf), Ok cs)
    ∧ (get_cookies (load_module
         (<["IP_CHECK" := ""]> (<["IP_CHECK" := ""]> env_session_csrf)))).2 = Ok cs
    ∧ (get_cookies (load_module
         (delete "IP_CHECK" (<["IP_CHECK" := ""]> env_session_csrf)))).2 = Ok cs
    ∧ (∀ c, c ∈ cs → name c ≠ lower "IP_CHECK").
Proof.
  apply (get_cookies_empty_as_absent (<["IP_CHECK" := ""]> env_session_csrf) "IP_CHECK").
  - compute_done.
  - right. vm_compute. reflexivity.
Defined.

(** C4. A variable whose name is not in the table contributes nothing:
    the output is the same whether that variable is set (to any value) or
    removed, and every record of the output is made from a variable of
    the table, other than that one. *)
Theorem get_cookies_ignores_other_variables
    (env : gmap string string) (k v : string) :
  k ∉ COOKIE_KEYS →
  ∃ cs,
    (get_cookies (load_module env)).2 = Ok cs
    ∧ (get_cookies (load_module (<[k := v]> env))).2 = Ok cs
    ∧ (get_cookies (load_module (delete k env))).2 = Ok cs
    ∧ (∀ c, c ∈ cs →
         ∃ k', k' ∈ COOKIE_KEYS ∧ k' ≠ k
               ∧ name c = lower k' ∧ env !! k' = Some (value c)).
Proof.
  intros Hk. exists (record_of env <$> set_keys env).
  assert ((get_cookies (load_module env)).2
          = Ok (record_of env <$> set_keys env)) as Hcs
    by by rewrite get_cookies_set_keys.
  split_and!; [done | | |].
  - rewrite <- Hcs. apply get_cookies_agree. intros k' Hk'.
    apply lookup_insert_ne. by intros ->.
  - rewrite <- Hcs. apply get_cookies_agree. intros k' Hk'.
    apply lookup_delete_ne. by intros ->.
  - intros c (k' & -> & Hk')%list_elem_of_fmap. exists k'.
    pose proof (record_of_set_key env k' Hk') as [Hv _].
    apply elem_of_set_keys in Hk' as [Hk' _].
    split_and!; [done | by intros -> | done | done].
Qed.

Lemma get_cookies_ignores_other_variables_witness :
  ∃ cs,
    (get_cookies (load_module env_session_csrf)).2 = Ok cs
    ∧ (get_cookies (load_module (<["SESSION" := "stolen"]> env_session_csrf))).2 = Ok cs
    ∧ (get_cookies (load_module (delete "SESSION" env_session_csrf))).2 = Ok cs
    ∧ (∀ c, c ∈ cs →
         ∃ k', k' ∈ COOKIE_KEYS ∧ k' ≠ "SESSION"
               ∧ name c = lower k' ∧ env_session_csrf !! k' = Some (value c)).
Proof.
  apply (get_cookies_ignores_other_variables env_session_csrf "SESSION" "stolen").
  compute_done.
Defined.

(** C5. With [LEETCODE_SESSION=abc123] and [CSRF_TOKEN=xyz] and the other
    four keys unset, the output is the [csrf_token] record followed by
    the [leetcode_session] record; with none of the six keys set, the
    output is the empty list. *)
Theorem get_cookies_scenarios :
  (∀ env : gmap string string,
     env !! "LEETCODE_SESSION" = Some "abc123" →
     env !! "CSRF_TOKEN" = Some "xyz" →
     env !! "CF_CLEARANCE" = None →
     env !! "INGRESSCOOKIE" = None →
     env !! "IP_CHECK" = None →
     env !! "MESSAGES" = None →
     (get_cookies (load_module env)).2
     = Ok [ {| name := "csrf_token"; value := "xyz"; domain := "leetcode.com" |};
            {| name := "leetcode_session"; value := "abc123";
               domain := ".leetcode.com" |} ])
  ∧ (∀ env : gmap string string,
       (∀ k, k ∈ COOKIE_KEYS → env !! k = None) →
       (get_cookies (load_module env)).2 = Ok []).
Proof.
  split.
  - intros env Hs Ht Hc Hg Hi Hm.
    rewrite (get_cookies_agree env env_session_csrf); [by vm_compute|].
    intros k Hk. unfold COOKIE_KEYS in Hk.
    each_member Hk; by rewrite ?Hs, ?Ht, ?Hc, ?Hg, ?Hi, ?Hm.
  - intros env Hnone.
    rewrite (get_cookies_agree env ∅); [by vm_compute|].
    intros k Hk. by rewrite Hnone, lookup_empty.
Qed.

Lemma get_cookies_scenarios_witness :
  (get_cookies (load_module env_session_csrf)).2 = Ok [csrf_xyz; session_abc123]
  ∧ (get_cookies (load_module (<["HOME" := "/root"]> ∅))).2 = Ok [].
Proof.
  split.
  - apply (proj1 get_cookies_scenarios env_session_csrf); vm_compute; reflexivity.
  - apply (proj2 get_cookies_scenarios (<["HOME" := "/root"]> ∅)).
    intros k Hk. unfold COOKIE_KEYS in Hk. each_member Hk; vm_compute; reflexivity.
Defined.

(** ** Order of the output *)

(** Assignments to distinct variables can be made in any order. *)
Lemma assign_all_list_to_map (kvs : list (string * string)) :
  assign_all kvs ∅ = list_to_map (reverse kvs).
Proof.
  unfold assign_all. induction kvs as [|[k v] kvs IH] using rev_ind; [done|].
  by rewrite foldl_snoc, reverse_snoc, list_to_map_cons, IH.
Qed.

Lemma assign_all_permutation (kvs1 kvs2 : list (string * string)) :
  NoDup kvs1.*1 → kvs1 ≡ₚ kvs2 → assign_all kvs1 ∅ = assign_all kvs2 ∅.
Proof.
  intros Hnd Hperm. rewrite !assign_all_list_to_map.
  apply list_to_map_proper.
  - by rewrite fmap_reverse, reverse_Permutation.
  - by rewrite !reverse_Permutation.
Qed.

Lemma StronglySorted_sublist {A} (R : relation A) (l1 l2 : list A) :
  l1 `sublist_of` l2 → StronglySorted R l2 → StronglySorted R l1.
Proof.
  induction 1 as [|x l1 l2 Hsub IH|x l1 l2 Hsub IH];
    rewrite ?StronglySorted_cons; [done | |].
  - intros [Hx Hl2]. split; [|by apply IH].
    apply Forall_forall. intros y Hy. rewrite Forall_forall in Hx.
    apply Hx. by eapply elem_of_sublist.
  - intros [_ Hl2]. by apply IH.
Qed.

Lemma StronglySorted_ascending (l : list string) :
  StronglySorted string_le l → ascending l = true.
Proof.
  induction l as [|a [|b l] IH]; [done | done |].
  rewrite StronglySorted_cons, Forall_cons. intros [[Hab _] Hl].
  change (ascending (a :: b :: l)) with (String.leb a b && ascending (b :: l)).
  by rewrite Hab, IH.
Qed.

(** The table lists its keys in ascending order, also once lowercased. *)
Lemma lower_COOKIE_KEYS_sorted : StronglySorted string_le (lower <$> COOKIE_KEYS).
Proof. repeat (constructor; [|repeat constructor; vm_compute; reflexivity]). constructor. Qed.

Lemma domains_of_records env (ks : list string) :
  domain <$> (record_of env <$> ks) = (λ k, default "" (DOMAINS !! k)) <$> ks.
Proof. rewrite <- list_fmap_compose. by apply list_fmap_ext. Qed.

Lemma filter_all {A} (P : A → Prop) `{!∀ x, Decision (P x)} (l : list A) :
  (∀ x, x ∈ l → x ∈ filter P l) → filter P l = l.
Proof.
  induction l as [|x l IH]; intros Hall; [done|].
  rewrite filter_cons in *. destruct (decide (P x)) as [Hx|Hx].
  - f_equal. apply IH. intros y Hy.
    apply list_elem_of_filter. split; [|done].
    pose proof (Hall y ltac:(by right)) as Hin.
    apply elem_of_cons in Hin as [-> | Hin]; [done|].
    by apply list_elem_of_filter in Hin as [? _].
  - exfalso. pose proof (Hall x ltac:(by left)) as Hin.
    by apply list_elem_of_filter in Hin as [? _].
Qed.

(** C2 (as amended). Whatever the order in which the variables were set,
    the records come in the order of [COOKIE_KEYS]: their names are the
    lowercased keys of a subsequence [ks] of the table.  The table being
    itself in ascending alphabetical order, the names of the output are
    in ascending alphabetical order as well.  The order is not a grouping
    by domain: when all six keys contribute, equal domains are not kept
    together. *)
Theorem get_cookies_table_order (sets1 sets2 : list (string * string)) :
  NoDup sets1.*1 →
  sets1 ≡ₚ sets2 →
  ∃ cs ks,
    (get_cookies (load_module (assign_all sets1 ∅))).2 = Ok cs
    ∧ (get_cookies (load_module (assign_all sets2 ∅))).2 = Ok cs
    ∧ ks `sublist_of` COOKIE_KEYS
    ∧ name <$> cs = lower <$> ks
    ∧ alphabetical cs = true
    ∧ ((∀ k, k ∈ COOKIE_KEYS → k ∈ ks) → domain_grouped cs = false).
Proof.
  intros Hnd Hperm. rewrite <- (assign_all_permutation sets1 sets2) by done.
  set (env := assign_all sets1 ∅).
  exists (record_of env <$> set_keys env), (set_keys env).
  rewrite get_cookies_set_keys.
  split_and!; [done | done | apply set_keys_sublist | apply names_of_records | |].
  - unfold alphabetical. rewrite names_of_records.
    apply StronglySorted_ascending.
    apply (StronglySorted_sublist _ _ (lower <$> COOKIE_KEYS));
      [apply fmap_sublist, set_keys_sublist | apply lower_COOKIE_KEYS_sorted].
  - intros Hall. unfold domain_grouped. rewrite domains_of_records.
    unfold set_keys in *. rewrite filter_all by done. by vm_compute.
Qed.

Lemma get_cookies_table_order_witness :
  ∃ cs ks,
    (get_cookies (load_module
       (assign_all [("LEETCODE_SESSION", "abc123"); ("CSRF_TOKEN", "xyz")] ∅))).2 = Ok cs
    ∧ (get_cookies (load_module
         (assign_all [("CSRF_TOKEN", "xyz"); ("LEETCODE_SESSION", "abc123")] ∅))).2 = Ok cs
    ∧ ks `sublist_of` COOKIE_KEYS
    ∧ name <$> cs = lower <$> ks
    ∧ alphabetical cs = true
    ∧ ((∀ k, k ∈ COOKIE_KEYS → k ∈ ks) → domain_grouped cs = false).
Proof.
  apply (get_cookies_table_order
           [("LEETCODE_SESSION", "abc123"); ("CSRF_TOKEN", "xyz")]
           [("CSRF_TOKEN", "xyz"); ("LEETCODE_SESSION", "abc123")]).
  - compute_done.
  - apply perm_swap.
Defined.

(** With all six keys set the output is alphabetical, and the
    [.leetcode.com] records are split by the [leetcode.com] ones. *)
Example get_cookies_all_six :
  ∃ cs, (get_cookies (load_module env_all_six)).2 = Ok cs
        ∧ name <$> cs = ["cf_clearance"; "csrf_token"; "ingresscookie";
                         "ip_check"; "leetcode_session"; "messages"]
        ∧ domain <$> cs = [".leetcode.com"; "leetcode.com"; "leetcode.com";
                           "leetcode.com"; ".leetcode.com"; ".leetcode.com"]
        ∧ alphabetical cs = true
        ∧ domain_grouped cs = false.
Proof. eexists. by vm_compute. Qed.

(** C2 as first stated also says that the order is never alphabetical or
    domain-grouped.  With the session and the CSRF token set, the output
    is in alphabetical order of the names and each domain forms one
    group. *)
Lemma get_cookies_order_alphabetical_and_grouped :
  (get_cookies (load_module env_session_csrf)).2 = Ok [csrf_xyz; session_abc123]
  ∧ alphabetical [csrf_xyz; session_abc123] = true
  ∧ domain_grouped [csrf_xyz; session_abc123] = true.
Proof. by vm_compute. Qed.

(** ** [OUTPUT_DIR] and [get_cookies] *)

Lemma get_cookies_with_OUTPUT_DIR d p :
  get_cookies (with_OUTPUT_DIR d p) = (with_OUTPUT_DIR d p, (get_cookies p).2).
Proof.
  rewrite (run_frame get_cookies (with_OUTPUT_DIR d p)) by apply get_cookies_frame.
  f_equal. by apply get_cookies_reads.
Qed.

Lemma OUTPUT_DIR_not_a_cookie_key : "OUTPUT_DIR" ∉ COOKIE_KEYS.
Proof. compute_done. Qed.

(** ** The calls of [setup_driver] *)

Lemma bind_run {S A B} (m : M S A) (k : A → M S B) (s : S) :
  bind m k s = match (m s).2 with
               | Ok a => k a (m s).1
               | Raise e => ((m s).1, Raise e)
               end.
Proof. unfold bind. by destruct (m s) as [s' [a|e]]. Qed.

Section driver_properties.
Context {world driver : Type} `{!Browser world driver}.

Implicit Types (s : machine world driver) (drv : driver) (cookies : list cookie).

Lemma external_run {A} (c : call driver) (op : world → world * result A) s :
  external c op s
  = ({| proc := proc s; outside := (op (outside s)).1; calls := calls s ++ [c] |},
     (op (outside s)).2).
Proof. unfold external. by destruct (op (outside s)). Qed.

Lemma in_process_run {A} (m : M process A) s :
  in_process m s
  = ({| proc := (m (proc s)).1; outside := outside s; calls := calls s |},
     (m (proc s)).2).
Proof. unfold in_process. by destruct (m (proc s)). Qed.

(** The loop of lines 41-42 issues [add_cookie] calls for a prefix of
    the list, the whole list when it ends without an exception, and
    does not touch the Python process. *)
Lemma add_cookie_loop drv cookies s :
  let run :=
    for_each cookies
      (λ cookie _, external (CallAddCookie drv cookie) (driver_add_cookie drv cookie))
      tt s in
  proc run.1 = proc s
  ∧ ∃ n, calls run.1 = calls s ++ take n (CallAddCookie drv <$> cookies)
         ∧ match run.2 with
           | Ok _ => n = length cookies
           | Raise _ => True
           end.
Proof.
  cbv zeta. revert s. induction cookies as [|c cookies IH]; intros s.
  - split; [done|]. exists 0. simpl. by rewrite app_nil_r.
  - cbn [for_each]. rewrite bind_run, external_run. cbn [fst snd].
    destruct (driver_add_cookie drv c (outside s)).2 as [[]|e].
    + match goal with |- context [for_each cookies _ tt ?s1] =>
        destruct (IH s1) as (Hproc & n & Hcalls & Hend) end.
      split; [done|]. exists (S n). rewrite Hcalls. simpl.
      rewrite <- app_assoc. split; [done|].
      destruct (for_each cookies _ _ _).2; [by rewrite Hend | done].
    + split; [done|]. by exists 1.
Qed.

(** The loop stops at the first [add_cookie] that raises, with that
    exception; it ends normally when none does. *)
Lemma add_cookie_loop_outcome drv cookies s :
  let run :=
    for_each cookies
      (λ cookie _, external (CallAddCookie drv cookie) (driver_add_cookie drv cookie))
      tt s in
  match first_refusal drv cookies (outside s) with
  | Some (i, e) =>
      run.2 = Raise e
      ∧ calls run.1 = calls s ++ take (S i) (CallAddCookie drv <$> cookies)
      ∧ i < length cookies
  | None =>
      run.2 = Ok tt
      ∧ calls run.1 = calls s ++ (CallAddCookie drv <$> cookies)
  end.
Proof.
  cbv zeta. revert s. induction cookies as [|c cookies IH]; intros s.
  - cbn. by rewrite app_nil_r.
  - cbn [for_each first_refusal]. rewrite bind_run, external_run. cbn [fst snd].
    destruct (driver_add_cookie drv c (outside s)).2 as [[]|e].
    + match goal with |- context [for_each cookies _ tt ?s1] =>
        pose proof (IH s1) as IH1 end.
      cbn [outside] in IH1.
      destruct (first_refusal drv cookies _) as [[i e]|].
      * destruct IH1 as (Hr & Hcalls & Hi). rewrite Hr, Hcalls.
        cbn [calls]. rewrite <- app_assoc. split_and!; [done | done |].
        cbn [length]. lia.
      * destruct IH1 as (Hr & Hcalls). rewrite Hr, Hcalls.
        cbn [calls]. by rewrite <- app_assoc.
    + split_and!; [done | by cbn; rewrite ?take_0 | cbn [length]; lia].
Qed.

(** C6 (as amended). [setup_driver] starts Chrome with the three fixed
    switches: headless, with the sandbox switched off ([--no-sandbox])
    and without [/dev/shm].  When Chrome starts, the calls of the run are
    an initial segment, at least two calls long, of: start Chrome, load
    the landing page in the new session, add each collected cookie to
    that session in the collector's order; so no cookie is added before
    the landing page was requested.  When the run returns, it returns
    that session and the segment is the whole sequence: every collected
    cookie was added.  An exception raised by a browser call ends the run
    and propagates: when Chrome does not start, nothing else is called
    and its exception is raised; when the landing page fails to load, no
    cookie is added and that exception is raised; when an [add_cookie]
    raises, the calls stop with it, its exception is raised and the
    remaining cookies are not added; and when no call raises, the run
    returns the session.  The Python process is left as it was. *)
Theorem setup_driver_effects (env : gmap string string) (w : world) :
  ∃ cs,
    (get_cookies (load_module env)).2 = Ok cs
    ∧ headless script_options = true
    ∧ sandboxed script_options = false
    ∧ shm_disabled script_options = true
    ∧ let run := setup_driver (boot env w) in
      proc run.1 = load_module env
      ∧ match (webdriver_Chrome script_options w).2 with
        | Raise e => calls run.1 = [CallChrome script_options] ∧ run.2 = Raise e
        | Ok drv =>
            let script :=
              [CallChrome script_options; CallGet drv LANDING_URL]
              ++ (CallAddCookie drv <$> cs) in
            let w1 := (webdriver_Chrome script_options w).1 in
            (∃ n, 2 ≤ n
                  ∧ calls run.1 = take n script
                  ∧ (∀ i d c, calls run.1 !! i = Some (CallAddCookie d c) →
                       1 < i ∧ calls run.1 !! 1 = Some (CallGet drv LANDING_URL))
                  ∧ match run.2 with
                    | Ok d => d = drv ∧ calls run.1 = script
                    | Raise _ => True
                    end)
            ∧ match (driver_get drv LANDING_URL w1).2 with
              | Raise e =>
                  run.2 = Raise e
                  ∧ calls run.1
                    = [CallChrome script_options; CallGet drv LANDING_URL]
              | Ok _ =>
                  match first_refusal drv cs (driver_get drv LANDING_URL w1).1 with
                  | Some (i, e) =>
                      run.2 = Raise e
                      ∧ i < length cs
                      ∧ calls run.1 = take (3 + i) script
                  | None => run.2 = Ok drv ∧ calls run.1 = script
                  end
              end
        end.
Proof.
  exists (record_of env <$> set_keys env).
  set (cs := record_of env <$> set_keys env).
  split_and!; [by rewrite get_cookies_set_keys | done..|].
  cbv zeta. unfold setup_driver.
  change (add_argument _ (add_argument _ (add_argument _ new_ChromeOptions)))
    with script_options.
  rewrite bind_run, external_run. cbn [fst snd boot proc outside calls app].
  destruct (webdriver_Chrome script_options w).2 as [drv|e]; [|done].
  set (script := [CallChrome script_options; CallGet drv LANDING_URL]
                 ++ (CallAddCookie drv <$> cs)).
  assert (∀ n (l : list (call driver)),
            2 ≤ n → l = take n script →
            ∀ i d c, l !! i = Some (CallAddCookie d c) →
                     1 < i ∧ l !! 1 = Some (CallGet drv LANDING_URL)) as Hbefore.
  { intros n l Hn -> i d c [Hi Hlt]%lookup_take_Some.
    destruct i as [|[|i]]; [done | done |]. split; [lia|].
    by rewrite lookup_take_lt by lia. }
  assert (take (2 + length cs) script = script) as Hwhole.
  { apply take_ge. unfold script. cbn [app length]. rewrite length_fmap. lia. }
  rewrite bind_run, external_run. cbn [fst snd proc outside calls app].
  destruct (driver_get drv LANDING_URL _).2 as [[]|e].
  2: { split; [done|]. split; [|done].
       exists 2. split_and!; [lia | done | | done]. by apply (Hbefore 2). }
  rewrite bind_run, in_process_run. cbn [fst snd proc outside calls].
  rewrite get_cookies_set_keys. cbn [fst snd]. fold cs.
  rewrite bind_run.
  match goal with |- context [for_each cs _ tt ?s1] =>
    pose proof (add_cookie_loop drv cs s1) as [Hproc _];
    pose proof (add_cookie_loop_outcome drv cs s1) as Hout end.
  cbv zeta in Hproc, Hout. cbn [proc outside calls] in Hproc, Hout.
  destruct (first_refusal drv cs _) as [[i e]|].
  - destruct Hout as (Hr & Hcalls & Hi). rewrite Hr. cbn [fst snd].
    rewrite Hcalls.
    split; [done|].
    assert ([CallChrome script_options; CallGet drv LANDING_URL]
            ++ take (S i) (CallAddCookie drv <$> cs) = take (3 + i) script)
      as Hseg by done.
    rewrite Hseg. split; [|done].
    exists (3 + i). split_and!; [lia | done | by apply (Hbefore (3 + i)); [lia|] | done].
  - destruct Hout as (Hr & Hcalls). rewrite Hr. unfold ret. cbn [fst snd].
    rewrite Hcalls.
    fold script. split; [done|]. split; [|done].
    exists (2 + length cs). split; [lia|]. split; [done|].
    split; [by apply (Hbefore (2 + length cs)); [lia|] | done].
Qed.

(** Neither function reads or writes [OUTPUT_DIR]. *)
Lemma ignores_ret {A} (a : A) :
  ignores_OUTPUT_DIR (world:=world) (driver:=driver) (ret a).
Proof. by intros d s. Qed.

Lemma ignores_bind {A B} (m : M (machine world driver) A) (k : A → M (machine world driver) B) :
  ignores_OUTPUT_DIR m → (∀ a, ignores_OUTPUT_DIR (k a)) →
  ignores_OUTPUT_DIR (bind m k).
Proof.
  intros Hm Hk d s. unfold bind. rewrite (Hm d s).
  destruct (m s) as [s' [a|e]]; cbn [fst snd]; [apply Hk | done].
Qed.

Lemma ignores_external {A} (c : call driver) (op : world → world * result A) :
  ignores_OUTPUT_DIR (external c op).
Proof. intros d s. by rewrite !external_run. Qed.

Lemma ignores_get_cookies :
  ignores_OUTPUT_DIR (world:=world) (driver:=driver) (in_process get_cookies).
Proof.
  intros d s. rewrite !in_process_run. cbn [proc machine_with_OUTPUT_DIR fst snd].
  rewrite get_cookies_with_OUTPUT_DIR, get_cookies_frame. done.
Qed.

Lemma ignores_for_each {A B} (l : list A) (body : A → B → M (machine world driver) B) acc :
  (∀ x acc, ignores_OUTPUT_DIR (body x acc)) →
  ignores_OUTPUT_DIR (for_each l body acc).
Proof.
  intros Hbody. revert acc. induction l as [|x l IH]; intros acc; cbn [for_each].
  - apply ignores_ret.
  - apply ignores_bind; [apply Hbody | apply IH].
Qed.

Lemma setup_driver_ignores_OUTPUT_DIR : ignores_OUTPUT_DIR setup_driver.
Proof.
  unfold setup_driver.
  repeat first
    [ apply ignores_bind; [|intros ?]
    | apply ignores_external
    | apply ignores_get_cookies
    | apply ignores_for_each; intros ? ?
    | apply ignores_ret ].
Qed.
End driver_properties.

(** C6 as first stated calls the session sandboxed and has every
    collected cookie injected in every run.  The session is started with
    [--no-sandbox]; and against a browser that refuses cookies, the run
    ends at the first [add_cookie] with its exception, the session cookie
    never being added. *)
Lemma setup_driver_unsandboxed_and_partial :
  (get_cookies (load_module env_session_csrf)).2 = Ok [csrf_xyz; session_abc123]
  ∧ calls (@setup_driver nat nat picky (boot env_session_csrf 0)).1
    = [CallChrome script_options; CallGet 0 LANDING_URL; CallAddCookie 0 csrf_xyz]
  ∧ sandboxed script_options = false
  ∧ (CallAddCookie 0 session_abc123
     ∉ calls (@setup_driver nat nat picky (boot env_session_csrf 0)).1)
  ∧ (@setup_driver nat nat picky (boot env_session_csrf 0)).2
    = Raise (WebDriverException "invalid cookie domain").
Proof.
  assert (calls (@setup_driver nat nat picky (boot env_session_csrf 0)).1
          = [CallChrome script_options; CallGet 0 LANDING_URL; CallAddCookie 0 csrf_xyz])
    as Hcalls by (vm_compute; reflexivity).
  split_and!; try (vm_compute; reflexivity).
  rewrite Hcalls. intros Hin.
  repeat (apply elem_of_cons in Hin as [Hin | Hin]; [discriminate|]).
  by apply elem_of_nil in Hin.
Qed.

(** Against a browser that serves every call, the same environment gives
    the whole sequence of calls. *)
Example setup_driver_steady_run :
  @setup_driver nat nat steady (boot env_session_csrf 0)
  = ({| proc := load_module env_session_csrf;
        outside := 4;
        calls := [CallChrome script_options; CallGet 0 LANDING_URL;
                  CallAddCookie 0 csrf_xyz; CallAddCookie 0 session_abc123] |},
     Ok 0).
Proof. vm_compute. reflexivity. Qed.

(** C8. [OUTPUT_DIR] is bound when the module is loaded, to the value of
    the environment variable of that name, or to [leetcode-capitalone]
    when the variable is unset.  After that, neither [get_cookies] nor
    [setup_driver] reads or writes it: with any other string bound to the
    name they do and return the same and leave that string bound; and the
    environment variable itself has no effect on the collected cookies. *)
Theorem OUTPUT_DIR_read_at_load_only {world driver : Type} `{!Browser world driver} :
  (∀ env : gmap string string,
     env !! "OUTPUT_DIR" = None →
     g_OUTPUT_DIR (load_module env) = "leetcode-capitalone")
  ∧ (∀ (env : gmap string string) v,
       env !! "OUTPUT_DIR" = Some v → g_OUTPUT_DIR (load_module env) = v)
  ∧ (∀ d p,
       get_cookies (with_OUTPUT_DIR d p) = (with_OUTPUT_DIR d p, (get_cookies p).2))
  ∧ (∀ d (s : machine world driver),
       setup_driver (machine_with_OUTPUT_DIR d s)
       = (machine_with_OUTPUT_DIR d (setup_driver s).1, (setup_driver s).2))
  ∧ (∀ s : machine world driver,
       g_OUTPUT_DIR (proc (setup_driver s).1) = g_OUTPUT_DIR (proc s))
  ∧ (∀ (env : gmap string string) v,
       (get_cookies (load_module (<["OUTPUT_DIR" := v]> env))).2
       = (get_cookies (load_module env)).2).
Proof.
  split_and!.
  - intros env Hunset. unfold load_module, OUTPUT_DIR; simpl. by rewrite Hunset.
  - intros env v Hset. unfold load_module, OUTPUT_DIR; simpl. by rewrite Hset.
  - apply get_cookies_with_OUTPUT_DIR.
  - apply setup_driver_ignores_OUTPUT_DIR.
  - intros s.
    assert (machine_with_OUTPUT_DIR (g_OUTPUT_DIR (proc s)) s = s) as Hs
      by by destruct s as [[] ? ?].
    rewrite <- Hs at 1. by rewrite setup_driver_ignores_OUTPUT_DIR.
  - intros env v. apply get_cookies_agree. intros k Hk.
    apply lookup_insert_ne. intros <-. by apply OUTPUT_DIR_not_a_cookie_key.
Qed.

Lemma OUTPUT_DIR_read_at_load_only_witness :
  g_OUTPUT_DIR (load_module env_session_csrf) = "leetcode-capitalone"
  ∧ g_OUTPUT_DIR (load_module (<["OUTPUT_DIR" := ""]> env_session_csrf)) = "".
Proof.
  split.
  - apply (proj1 (@OUTPUT_DIR_read_at_load_only nat nat steady)).
    vm_compute. reflexivity.
  - apply (proj1 (proj2 (@OUTPUT_DIR_read_at_load_only nat nat steady))).
    vm_compute. reflexivity.
Defined.

(** * Further properties of [main.py] *)

(** A process whose [DOMAINS] has lost an entry after the module was
    loaded, and the log entries that add a cookie. *)
Definition without_domain (k : string) (p : process) : process :=
  {| environ := environ p;
     g_OUTPUT_DIR := g_OUTPUT_DIR p;
     g_COOKIE_KEYS := g_COOKIE_KEYS p;
     g_DOMAINS := delete k (g_DOMAINS p) |}.

Definition added_cookies {driver} (log : list (call driver)) : list cookie :=
  omap (λ c, match c with CallAddCookie _ ck => Some ck | _ => None end) log.

(** ** [get_cookies] on tables that were changed after loading *)

Lemma for_each_app {S A B} (l1 l2 : list A) (body : A → B → M S B) acc s :
  for_each (l1 ++ l2) body acc s
  = bind (for_each l1 body acc) (for_each l2 body) s.
Proof.
  revert acc s. induction l1 as [|x l1 IH]; intros acc s; [done|].
  cbn [app for_each]. unfold bind at 1 2 3.
  destruct (body x acc s) as [s' [a|e]]; [apply IH | done].
Qed.

Lemma get_cookies_body_skip key acc p :
  truthy (environ p !! key) = false → get_cookies_body key acc p = (p, Ok acc).
Proof.
  intros [Hv | Hv]%truthy_false;
    unfold get_cookies_body, bind, environ_get, ret; by rewrite Hv.
Qed.

Lemma get_cookies_body_raise key acc p :
  truthy (environ p !! key) = true → g_DOMAINS p !! key = None →
  get_cookies_body key acc p = (p, Raise (KeyError key)).
Proof.
  intros (v & Hv & Hne)%truthy_spec Hd.
  unfold get_cookies_body, bind, environ_get, DOMAINS_getitem, ret.
  rewrite Hv. destruct v as [|c v]; [done|]. simpl. by rewrite Hd.
Qed.

Lemma loop_lazy p (keys : list string) acc :
  (∀ k, k ∈ keys → truthy (environ p !! k) = true → is_Some (g_DOMAINS p !! k)) →
  for_each keys get_cookies_body acc p
  = (p, Ok (acc ++ omap (cookie_for (environ p) (g_DOMAINS p)) keys)).
Proof.
  revert acc. induction keys as [|key keys IH]; intros acc Hdom.
  - simpl. by rewrite app_nil_r.
  - change (omap ?h (key :: keys))
      with (match h key with Some y => y :: omap h keys | None => omap h keys end).
    cbn [for_each]. unfold bind.
    destruct (truthy (environ p !! key)) eqn:Ht.
    + rewrite get_cookies_body_eval by (apply Hdom; [by left | done]).
      rewrite IH by (intros k Hk; apply Hdom; by right).
      destruct (cookie_for (environ p) (g_DOMAINS p) key); simpl;
        by rewrite <- ?app_assoc, ?app_nil_r.
    + rewrite get_cookies_body_skip by done.
      rewrite IH by (intros k Hk; apply Hdom; by right).
      by rewrite cookie_for_falsy by by apply truthy_false.
Qed.

(** The record of a key: its lowercased name, its value in the
    environment and its entry of the domain table. *)
Definition is_record_of (env doms : gmap string string) (k : string) (c : cookie)
    : Prop :=
  name c = lower k ∧ env !! k = Some (value c) ∧ doms !! k = Some (domain c).

(** Every character of [s] is in the ASCII range, where [lower] is what
    [str.lower] does. *)
Definition ascii_only (s : string) : bool :=
  forallb (λ c, nat_of_ascii c <? 128) (list_ascii_of_string s).

Lemma records_of_omap_cookie_for env doms (keys : list string) :
  (∀ k, k ∈ keys → truthy (env !! k) = true → is_Some (doms !! k)) →
  Forall2 (is_record_of env doms)
    (filter (λ k, truthy (env !! k)) keys)
    (omap (cookie_for env doms) keys).
Proof.
  induction keys as [|key keys IH]; intros Hdom; [constructor|].
  change (omap ?h (key :: keys))
    with (match h key with Some y => y :: omap h keys | None => omap h keys end).
  rewrite filter_cons.
  specialize (IH (λ k Hk, Hdom k (list_elem_of_further _ _ _ Hk))).
  destruct (truthy (env !! key)) eqn:Ht.
  - destruct (Hdom key) as [d Hd]; [by left | done |].
    apply truthy_spec in Ht as (v & Hv & Hne).
    unfold cookie_for at 1. rewrite Hv, Hd. destruct v as [|a v]; [done|].
    rewrite decide_True by done. by constructor.
  - rewrite cookie_for_falsy by by apply truthy_false.
    by rewrite decide_False by (by intros []).
Qed.

(** X1. [DOMAINS] is only subscripted for the keys that are set to a
    non-empty value.  Whatever ASCII keys the list holds and whatever
    the domain table holds, when each key of the list that is set to a
    non-empty value has an entry, the call returns and leaves the
    process unchanged; the output is, position by position, the records
    of the keys of the list that are set to a non-empty value, in the
    order of the list: one record per such key, with the lowercased key,
    the key's value and the key's entry.  An unset or empty key needs no
    entry. *)
Theorem get_cookies_looks_up_set_keys_only (p : process) :
  (∀ k, k ∈ g_COOKIE_KEYS p → ascii_only k = true) →
  (∀ k, k ∈ g_COOKIE_KEYS p → truthy (environ p !! k) = true →
        is_Some (g_DOMAINS p !! k)) →
  ∃ cs,
    get_cookies p = (p, Ok cs)
    ∧ Forall2 (λ k c, name c = lower k
                      ∧ environ p !! k = Some (value c)
                      ∧ g_DOMAINS p !! k = Some (domain c))
        (filter (λ k, truthy (environ p !! k)) (g_COOKIE_KEYS p)) cs.
Proof.
  intros _ Hdom.
  exists (omap (cookie_for (environ p) (g_DOMAINS p)) (g_COOKIE_KEYS p)).
  split.
  - unfold get_cookies, bind, read_COOKIE_KEYS. by rewrite loop_lazy.
  - by apply records_of_omap_cookie_for.
Qed.

Lemma get_cookies_looks_up_set_keys_only_witness :
  ∃ cs,
    get_cookies (without_domain "MESSAGES" (load_module env_session_csrf))
    = (without_domain "MESSAGES" (load_module env_session_csrf), Ok cs)
    ∧ Forall2 (λ k c, name c = lower k
                      ∧ env_session_csrf !! k = Some (value c)
                      ∧ delete "MESSAGES" DOMAINS !! k = Some (domain c))
        (filter (λ k, truthy (env_session_csrf !! k)) COOKIE_KEYS) cs.
Proof.
  apply (get_cookies_looks_up_set_keys_only
           (without_domain "MESSAGES" (load_module env_session_csrf))).
  - intros k Hk. cbn in Hk. each_member Hk; vm_compute; reflexivity.
  - intros k Hk Ht. cbn in Hk.
    each_member Hk;
      first [ by vm_compute in Ht | eexists; vm_compute; reflexivity ].
Defined.

(** Two keys that differ only in case give two records, in the order of
    the list. *)
Example get_cookies_keys_differing_in_case :
  (get_cookies {| environ := assign_all [("a", "1"); ("A", "2")] ∅;
                  g_OUTPUT_DIR := "out";
                  g_COOKIE_KEYS := ["A"; "a"];
                  g_DOMAINS := assign_all [("A", "x.org"); ("a", "y.org")] ∅ |}).2
  = Ok [ {| name := "a"; value := "2"; domain := "x.org" |};
         {| name := "a"; value := "1"; domain := "y.org" |} ].
Proof. vm_compute. reflexivity. Qed.

(** X2. When a key of the list is set to a non-empty value and has no
    entry in [DOMAINS], and the keys before it in the list do not have
    that defect, the call raises [KeyError] for that key: the records
    collected so far are lost, and the process is unchanged. *)
Theorem get_cookies_KeyError_first_missing
    (p : process) (before after : list string) (k : string) :
  g_COOKIE_KEYS p = before ++ k :: after →
  (∀ k', k' ∈ before → truthy (environ p !! k') = true →
         is_Some (g_DOMAINS p !! k')) →
  truthy (environ p !! k) = true →
  g_DOMAINS p !! k = None →
  get_cookies p = (p, Raise (KeyError k)).
Proof.
  intros Hkeys Hbefore Ht Hd.
  unfold get_cookies, bind, read_COOKIE_KEYS. rewrite Hkeys, for_each_app.
  unfold bind. rewrite loop_lazy by done.
  cbn [for_each]. unfold bind. by rewrite get_cookies_body_raise.
Qed.

Lemma get_cookies_KeyError_first_missing_witness :
  get_cookies (without_domain "LEETCODE_SESSION" (load_module env_session_csrf))
  = (without_domain "LEETCODE_SESSION" (load_module env_session_csrf),
     Raise (KeyError "LEETCODE_SESSION")).
Proof.
  apply (get_cookies_KeyError_first_missing
           (without_domain "LEETCODE_SESSION" (load_module env_session_csrf))
           ["CF_CLEARANCE"; "CSRF_TOKEN"; "INGRESSCOOKIE"; "IP_CHECK"]
           ["MESSAGES"] "LEETCODE_SESSION").
  - reflexivity.
  - intros k Hk Ht.
    each_member Hk;
      first [ by vm_compute in Ht | eexists; vm_compute; reflexivity ].
  - vm_compute. reflexivity.
  - vm_compute. reflexivity.
Defined.

(** ** How the output follows the environment *)





(** X4. Every record of the output carries a non-empty value, one of the
    two domains [leetcode.com] and [.leetcode.com], and a name without
    upper-case letters. *)
Theorem get_cookies_record_invariants (env : gmap string string) :
  ∃ cs,
    (get_cookies (load_module env)).2 = Ok cs
    ∧ (∀ c, c ∈ cs →
         value c ≠ ""
         ∧ (domain c = "leetcode.com" ∨ domain c = ".leetcode.com")
         ∧ lower (name c) = name c).
Proof.
  exists (record_of env <$> set_keys env). rewrite get_cookies_set_keys.
  split; [done|]. intros c (k & -> & Hk)%list_elem_of_fmap.
  pose proof (record_of_set_key env k Hk) as [Hval _].
  apply elem_of_set_keys in Hk as (Hk & v & Hv & Hne).
  split; [|unfold COOKIE_KEYS in Hk; each_member Hk; vm_compute; auto].
  rewrite Hv in Hval. by simplify_eq.
Qed.

(** ** [setup_driver], call by call *)

(** The loop of lines 41-42. *)
Definition add_cookies {world driver} `{!Browser world driver}
    (drv : driver) (cookies : list cookie) : M (machine world driver) unit :=
  for_each cookies
    (λ cookie _, external (CallAddCookie drv cookie) (driver_add_cookie drv cookie))
    tt.

(** The world after the cookies of a list were added to session [drv]
    one after the other, starting in world [w]. *)
Definition world_after_adds {world driver} `{!Browser world driver}
    (drv : driver) (cookies : list cookie) (w : world) : world :=
  foldl (λ w' c, (driver_add_cookie drv c w').1) w cookies.

(** A browser that serves every call but refuses a cookie named
    [messages]. *)
Definition choosy : Browser nat nat := {|
  webdriver_Chrome _ n := (S n, Ok n);
  driver_get _ _ n := (S n, Ok tt);
  driver_add_cookie _ c n :=
    if decide (name c = "messages")
    then (n, Raise (WebDriverException "refused"))
    else (S n, Ok tt);
|}.

Section driver_further.
Context {world driver : Type} `{!Browser world driver}.

Implicit Types (s : machine world driver) (drv : driver) (cookies : list cookie).

Lemma add_cookies_cons drv c cookies s :
  add_cookies drv (c :: cookies) s
  = match (driver_add_cookie drv c (outside s)).2 with
    | Ok _ =>
        add_cookies drv cookies
          {| proc := proc s;
             outside := (driver_add_cookie drv c (outside s)).1;
             calls := calls s ++ [CallAddCookie drv c] |}
    | Raise e =>
        ({| proc := proc s;
            outside := (driver_add_cookie drv c (outside s)).1;
            calls := calls s ++ [CallAddCookie drv c] |}, Raise e)
    end.
Proof.
  unfold add_cookies. cbn [for_each]. rewrite bind_run, external_run.
  cbn [fst snd]. by destruct (driver_add_cookie drv c (outside s)).2 as [[]|e].
Qed.

(** The whole of [setup_driver], one browser call after the other. *)
Lemma setup_driver_unfold s :
  setup_driver s
  = let r1 := webdriver_Chrome script_options (outside s) in
    match r1.2 with
    | Raise e =>
        ({| proc := proc s; outside := r1.1;
            calls := calls s ++ [CallChrome script_options] |}, Raise e)
    | Ok drv =>
        let r2 := driver_get drv LANDING_URL r1.1 in
        let s2 := {| proc := proc s; outside := r2.1;
                     calls := calls s ++ [CallChrome script_options;
                                          CallGet drv LANDING_URL] |} in
        match r2.2 with
        | Raise e => (s2, Raise e)
        | Ok _ =>
            match (get_cookies (proc s)).2 with
            | Raise e => (s2, Raise e)
            | Ok cs =>
                ((add_cookies drv cs s2).1,
                 match (add_cookies drv cs s2).2 with
                 | Ok _ => Ok drv
                 | Raise e => Raise e
                 end)
            end
        end
    end.
Proof.
  cbv zeta. unfold setup_driver.
  change (add_argument _ (add_argument _ (add_argument _ new_ChromeOptions)))
    with script_options.
  rewrite bind_run, external_run. cbn [fst snd proc outside calls].
  destruct (webdriver_Chrome script_options (outside s)).2 as [drv|e]; [|done].
  rewrite bind_run, external_run. cbn [fst snd proc outside calls].
  rewrite <- app_assoc. cbn [app].
  destruct (driver_get drv LANDING_URL _).2 as [[]|e]; [|done].
  rewrite bind_run, in_process_run. cbn [fst snd proc outside calls].
  rewrite get_cookies_frame.
  destruct (get_cookies (proc s)).2 as [cs|e]; [|done].
  rewrite bind_run. fold (add_cookies drv cs).
  destruct (add_cookies drv cs _) as [s3 [[]|e]]; done.
Qed.

Lemma add_cookies_served drv cookies s :
  (∀ i c, cookies !! i = Some c →
     (driver_add_cookie drv c
        (world_after_adds drv (take i cookies) (outside s))).2 = Ok tt) →
  (add_cookies drv cookies s).2 = Ok tt
  ∧ calls (add_cookies drv cookies s).1 = calls s ++ (CallAddCookie drv <$> cookies)
  ∧ outside (add_cookies drv cookies s).1
    = world_after_adds drv cookies (outside s).
Proof.
  revert s. induction cookies as [|c cookies IH]; intros s Hserved.
  - split_and!; [done | | done]. cbn. by rewrite app_nil_r.
  - rewrite add_cookies_cons.
    pose proof (Hserved 0 c eq_refl) as H0. cbn in H0. rewrite H0.
    destruct (IH {| proc := proc s;
                    outside := (driver_add_cookie drv c (outside s)).1;
                    calls := calls s ++ [CallAddCookie drv c] |})
      as (Hr & Hcalls & Hout).
    { intros i c' Hi. apply (Hserved (S i) c' Hi). }
    split_and!; [done | | done].
    rewrite Hcalls. cbn [calls]. by rewrite <- app_assoc.
Qed.

Lemma add_cookies_raises drv cookies s e :
  (add_cookies drv cookies s).2 = Raise e →
  ∃ c w, (driver_add_cookie drv c w).2 = Raise e.
Proof.
  revert s. induction cookies as [|c cookies IH]; intros s; [done|].
  rewrite add_cookies_cons.
  destruct (driver_add_cookie drv c (outside s)).2 as [[]|e'] eqn:Hc.
  - apply IH.
  - intros [= ->]. eauto.
Qed.

Lemma add_cookies_log drv cookies s :
  ∃ n, calls (add_cookies drv cookies s).1
       = calls s ++ take n (CallAddCookie drv <$> cookies)
       ∧ match (add_cookies drv cookies s).2 with
         | Ok _ => n = length cookies
         | Raise _ => True
         end.
Proof. by destruct (add_cookie_loop drv cookies s) as [_ H]. Qed.

(** The log of a run from a freshly loaded module. *)
Lemma setup_driver_log (env : gmap string string) (w : world) :
  (calls (setup_driver (boot env w)).1 = [CallChrome script_options]
   ∧ ∃ e, (setup_driver (boot env w)).2 = Raise e)
  ∨ ∃ drv n,
      (webdriver_Chrome script_options w).2 = Ok drv
      ∧ calls (setup_driver (boot env w)).1
        = [CallChrome script_options; CallGet drv LANDING_URL]
          ++ take n (CallAddCookie drv <$> (record_of env <$> set_keys env))
      ∧ match (setup_driver (boot env w)).2 with
        | Ok _ => n = length (set_keys env)
        | Raise _ => True
        end.
Proof.
  rewrite setup_driver_unfold. cbv zeta. cbn [boot proc outside calls app].
  destruct (webdriver_Chrome script_options w).2 as [drv|e]; [|left; eauto].
  right. exists drv.
  destruct (driver_get drv LANDING_URL _).2 as [[]|e];
    [|exists 0; by rewrite take_0].
  rewrite get_cookies_set_keys. cbn [fst snd].
  match goal with |- context [add_cookies drv ?cs ?s2] =>
    destruct (add_cookies_log drv cs s2) as (n & Hcalls & Hend) end.
  exists n. split; [done|]. split; [by rewrite Hcalls|].
  destruct (add_cookies drv _ _).2; [|done]. by rewrite Hend, length_fmap.
Qed.
End driver_further.

Lemma added_cookies_of_adds {driver} (drv : driver) (cookies : list cookie) :
  added_cookies (CallAddCookie drv <$> cookies) = cookies.
Proof. induction cookies as [|c cookies IH]; [done|]. cbn. by f_equal. Qed.

Section driver_extras.
Context {world driver : Type} `{!Browser world driver}.

Implicit Types (s : machine world driver) (drv : driver) (cookies : list cookie).

(** X5. [setup_driver] fails only when a call it makes on the browser
    does.  When the start of Chrome in the initial world, the request of
    the landing page in the world that leaves, and each [add_cookie] for
    a collected cookie, in the world left by the calls before it, do not
    raise, the run returns the session Chrome gave, having started
    Chrome, loaded the landing page and added every collected cookie, in
    that order; what the browser would answer to other calls, or in
    other worlds, does not matter. *)
Theorem setup_driver_returns_when_browser_serves
    (env : gmap string string) (w : world) (drv : driver) :
  (webdriver_Chrome script_options w).2 = Ok drv →
  (driver_get drv LANDING_URL (webdriver_Chrome script_options w).1).2 = Ok tt →
  (∀ cs i c,
     (get_cookies (load_module env)).2 = Ok cs →
     cs !! i = Some c →
     (driver_add_cookie drv c
        (world_after_adds drv (take i cs)
           (driver_get drv LANDING_URL
              (webdriver_Chrome script_options w).1).1)).2 = Ok tt) →
  ∃ cs,
    (get_cookies (load_module env)).2 = Ok cs
    ∧ (setup_driver (boot env w)).2 = Ok drv
    ∧ calls (setup_driver (boot env w)).1
      = [CallChrome script_options; CallGet drv LANDING_URL]
        ++ (CallAddCookie drv <$> cs)
    ∧ outside (setup_driver (boot env w)).1
      = world_after_adds drv cs
          (driver_get drv LANDING_URL (webdriver_Chrome script_options w).1).1.
Proof.
  intros HChrome Hget Hadds.
  exists (record_of env <$> set_keys env).
  specialize (Hadds (record_of env <$> set_keys env)).
  rewrite get_cookies_set_keys in Hadds |- *. cbn [snd] in Hadds.
  split; [done|].
  rewrite setup_driver_unfold. cbv zeta. cbn [boot proc outside calls app].
  rewrite HChrome, Hget, get_cookies_set_keys. cbn [fst snd].
  match goal with |- context [add_cookies drv ?cs ?s2] =>
    destruct (add_cookies_served drv cs s2) as (Hr & Hcalls & Hout) end.
  { intros i c Hi. by apply Hadds. }
  by rewrite Hr, Hcalls, Hout.
Qed.

(** X6. Every exception that leaves [setup_driver], run on a freshly
    loaded module, was raised by one of the three browser operations:
    whatever holds of all the exceptions they raise holds of it.  The
    collector adds none, in particular no [KeyError]. *)
Theorem setup_driver_raises_only_browser_exceptions
    (P : exn → Prop) (env : gmap string string) (w : world) (e : exn) :
  (∀ o w' e', (webdriver_Chrome o w').2 = Raise e' → P e') →
  (∀ d u w' e', (driver_get d u w').2 = Raise e' → P e') →
  (∀ d c w' e', (driver_add_cookie d c w').2 = Raise e' → P e') →
  (setup_driver (boot env w)).2 = Raise e →
  P e.
Proof.
  intros HChrome Hget Hadd.
  rewrite setup_driver_unfold. cbv zeta. cbn [boot proc outside calls app].
  destruct (webdriver_Chrome script_options w).2 as [drv|e1] eqn:H1.
  2: { intros [= <-]. by eapply HChrome. }
  destruct (driver_get drv LANDING_URL _).2 as [[]|e2] eqn:H2.
  2: { intros [= <-]. by eapply Hget. }
  rewrite get_cookies_set_keys. cbn [fst snd].
  destruct (add_cookies drv _ _).2 as [[]|e3] eqn:H3; [done|].
  intros [= <-]. apply add_cookies_raises in H3 as (c & w' & H3).
  by eapply Hadd.
Qed.

(** X7. A run makes at most eight browser calls.  Chrome is started
    once, first, with the script's options; the only page requested is
    the landing page, once, as second call and in the session Chrome
    gave; [COMPANY_URL] is never requested. *)
Theorem setup_driver_loads_only_landing_page
    (env : gmap string string) (w : world) :
  let log := calls (setup_driver (boot env w)).1 in
  length log ≤ 8
  ∧ log !! 0 = Some (CallChrome script_options)
  ∧ (∀ i o, log !! i = Some (CallChrome o) → i = 0)
  ∧ (∀ i d u, log !! i = Some (CallGet d u) →
       i = 1 ∧ u = LANDING_URL ∧ (webdriver_Chrome script_options w).2 = Ok d)
  ∧ (∀ d, CallGet d COMPANY_URL ∉ log).
Proof.
  cbv zeta.
  assert (∀ drv n i c,
            (take n (CallAddCookie drv <$> (record_of env <$> set_keys env)))
              !! i = Some c →
            ∃ ck, c = CallAddCookie drv ck) as Hadds.
  { intros drv n i c [Hc _]%lookup_take_Some.
    apply list_lookup_fmap_Some in Hc as (ck & -> & _). eauto. }
  assert (∀ i d u, calls (setup_driver (boot env w)).1 !! i = Some (CallGet d u) →
            i = 1 ∧ u = LANDING_URL ∧ (webdriver_Chrome script_options w).2 = Ok d)
    as Hget.
  { intros i d u.
    destruct (setup_driver_log env w) as [[-> _] | (drv & n & HChrome & -> & _)].
    - by destruct i as [|[|i]].
    - destruct i as [|[|i]]; [done | by intros [= <- <-] |].
      intros Hi. by apply Hadds in Hi as [ck ?]. }
  split_and!; [| | | done |].
  - destruct (setup_driver_log env w) as [[-> _] | (drv & n & _ & -> & _)];
      [cbn; lia|].
    rewrite length_app, length_take, !length_fmap. cbn [length].
    pose proof (sublist_length _ _ (set_keys_sublist env)) as Hlen.
    change (length COOKIE_KEYS) with 6 in Hlen. lia.
  - by destruct (setup_driver_log env w) as [[-> _] | (drv & n & _ & -> & _)].
  - intros i o.
    destruct (setup_driver_log env w) as [[-> _] | (drv & n & _ & -> & _)].
    + by destruct i as [|[|i]].
    + destruct i as [|[|i]]; [done | done |].
      intros Hi. by apply Hadds in Hi as [ck ?].
  - intros d (i & Hi)%list_elem_of_lookup.
    by apply Hget in Hi as (_ & Hu & _).
Qed.

(** X8. The cookies added in a run are an initial segment of the
    collected list, the whole list when the run returns; there are at
    most six of them and no two bear the same name. *)
Theorem setup_driver_adds_distinct_cookies
    (env : gmap string string) (w : world) :
  ∃ cs,
    (get_cookies (load_module env)).2 = Ok cs
    ∧ added_cookies (calls (setup_driver (boot env w)).1) `prefix_of` cs
    ∧ length (added_cookies (calls (setup_driver (boot env w)).1)) ≤ 6
    ∧ NoDup (name <$> added_cookies (calls (setup_driver (boot env w)).1))
    ∧ match (setup_driver (boot env w)).2 with
      | Ok _ => added_cookies (calls (setup_driver (boot env w)).1) = cs
      | Raise _ => True
      end.
Proof.
  exists (record_of env <$> set_keys env). rewrite get_cookies_set_keys.
  split; [done|].
  assert (length (record_of env <$> set_keys env) ≤ 6) as Hlen.
  { rewrite length_fmap. apply (sublist_length _ COOKIE_KEYS), set_keys_sublist. }
  assert (NoDup (name <$> (record_of env <$> set_keys env))) as Hnd.
  { rewrite names_of_records.
    eapply sublist_NoDup; [apply NoDup_lower_COOKIE_KEYS|].
    apply fmap_sublist, set_keys_sublist. }
  destruct (setup_driver_log env w) as [[-> [e ->]] | (drv & n & _ & -> & Hend)].
  - cbn. split_and!; [apply prefix_nil | lia | constructor | done].
  - change (added_cookies ([CallChrome script_options; CallGet drv LANDING_URL]
                           ++ ?l)) with (added_cookies l).
    rewrite <- fmap_take, added_cookies_of_adds.
    split_and!.
    + apply prefix_take.
    + rewrite length_take. lia.
    + eapply sublist_NoDup; [exact Hnd|]. apply fmap_sublist, sublist_take.
    + destruct (setup_driver (boot env w)).2; [|done].
      rewrite Hend, <- (length_fmap (record_of env)). apply firstn_all.
Qed.
(** X10. The collector is called after the browser was started and the
    landing page loaded.  So when [get_cookies] raises, as it does on a
    [DOMAINS] that lacks a set key, [setup_driver] raises the same
    exception with the session already running: Chrome and the landing
    page are the calls made, no cookie is added, and nothing closes the
    session. *)
Theorem setup_driver_collector_failure s drv (e : exn) :
  (webdriver_Chrome script_options (outside s)).2 = Ok drv →
  (driver_get drv LANDING_URL
     (webdriver_Chrome script_options (outside s)).1).2 = Ok tt →
  (get_cookies (proc s)).2 = Raise e →
  setup_driver s
  = ({| proc := proc s;
        outside := (driver_get drv LANDING_URL
                      (webdriver_Chrome script_options (outside s)).1).1;
        calls := calls s ++ [CallChrome script_options;
                             CallGet drv LANDING_URL] |},
     Raise e).
Proof.
  intros HChrome Hget Hcollect. rewrite setup_driver_unfold. cbv zeta.
  by rewrite HChrome, Hget, Hcollect.
Qed.
End driver_extras.

Lemma setup_driver_returns_when_browser_serves_witness :
  ∃ cs,
    (get_cookies (load_module env_session_csrf)).2 = Ok cs
    ∧ (@setup_driver nat nat choosy (boot env_session_csrf 0)).2 = Ok 0
    ∧ calls (@setup_driver nat nat choosy (boot env_session_csrf 0)).1
      = [CallChrome script_options; CallGet 0 LANDING_URL]
        ++ (CallAddCookie 0 <$> cs)
    ∧ outside (@setup_driver nat nat choosy (boot env_session_csrf 0)).1
      = @world_after_adds nat nat choosy 0 cs
          (@driver_get nat nat choosy 0 LANDING_URL
             (@webdriver_Chrome nat nat choosy script_options 0).1).1.
Proof.
  apply (@setup_driver_returns_when_browser_serves nat nat choosy
           env_session_csrf 0 0).
  - reflexivity.
  - reflexivity.
  - intros cs i c Hcs Hi. vm_compute in Hcs. injection Hcs as <-.
    destruct i as [|[|i]]; [| |done]; injection Hi as <-; vm_compute; reflexivity.
Defined.

(** The same browser refuses the [messages] cookie of a full
    environment: the run stops there with its exception. *)
Example setup_driver_choosy_refuses_messages :
  (@setup_driver nat nat choosy (boot env_all_six 0)).2
  = Raise (WebDriverException "refused")
  ∧ length (calls (@setup_driver nat nat choosy (boot env_all_six 0)).1) = 8.
Proof. by vm_compute. Qed.

Lemma setup_driver_raises_only_browser_exceptions_witness :
  WebDriverException "invalid cookie domain"
  = WebDriverException "invalid cookie domain".
Proof.
  apply (@setup_driver_raises_only_browser_exceptions nat nat picky
           (λ e, e = WebDriverException "invalid cookie domain")
           env_session_csrf 0).
  - intros o w e H. discriminate H.
  - intros d u w e H. discriminate H.
  - intros d c w e H. by injection H as <-.
  - vm_compute. reflexivity.
Defined.

Lemma setup_driver_collector_failure_witness :
  @setup_driver nat nat steady
    {| proc := without_domain "LEETCODE_SESSION" (load_module env_session_csrf);
       outside := 0; calls := [] |}
  = ({| proc := without_domain "LEETCODE_SESSION" (load_module env_session_csrf);
        outside := 2;
        calls := [CallChrome script_options; CallGet 0 LANDING_URL] |},
     Raise (KeyError "LEETCODE_SESSION")).
Proof.
  apply (@setup_driver_collector_failure nat nat steady
           {| proc := without_domain "LEETCODE_SESSION"
                        (load_module env_session_csrf);
              outside := 0; calls := [] |}
           0 (KeyError "LEETCODE_SESSION")).
  - reflexivity.
  - reflexivity.
  - vm_compute. reflexivity.
Defined.
